(** * The Oracle storage client of go-oracle-terraform

    A shallow embedding of
    [vendor/github.com/hashicorp/go-oracle-terraform/storage/storage_client.go]
    and the properties of its request path and of its name helpers. *)

From Stdlib Require Import ZArith QArith String Ascii List Lia.
From Stdlib Require Import Floats.SpecFloat.
From stdpp Require Import functions gmap strings.

Local Open Scope Z_scope.

(* stdpp blocks the unfolding of [String.append]; the proofs below compute
   with it. *)
#[local] Arguments String.append !_ _ / : simpl nomatch.

(** ** Go values the file works with *)

(** A run-time panic of the Go program. *)
Inductive GoPanic : Type :=
| NilDereference
| InterfaceConversion
| SliceBoundsOutOfRange.

(** A pure Go expression either has a value or panics. *)
Inductive Res (A : Type) : Type :=
| Val (a : A)
| Panics (p : GoPanic).
Arguments Val {A} a.
Arguments Panics {A} p.

Definition res_bind {A B} (r : Res A) (f : A -> Res B) : Res B :=
  match r with
  | Val a => f a
  | Panics p => Panics p
  end.

(** [*p] for a pointer [p]: [None] is the nil pointer. *)
Definition deref {A} (p : option A) : Res A :=
  match p with
  | Some a => Val a
  | None => Panics NilDereference
  end.

(** ** The functions of package [strings] the file calls

    Go strings are byte sequences; [string] is a list of 8-bit characters. *)
Module strings.

(** [strings.HasPrefix(s, prefix)]. *)
Definition HasPrefix (s pre : string) : bool := String.prefix pre s.

(** [strings.Index(s, substr)]: the byte offset of the first occurrence,
    [None] where Go returns -1. *)
Fixpoint Index (s substr : string) : option nat :=
  if String.prefix substr s then Some 0%nat
  else match s with
       | EmptyString => None
       | String _ s' => option_map S (Index s' substr)
       end.

(** [strings.Contains(s, substr)] is [Index(s, substr) >= 0]. *)
Definition Contains (s substr : string) : bool :=
  match Index s substr with
  | Some _ => true
  | None => false
  end.

(** The loop of [genSplit]: cut at the first occurrence of [sep], go on
    with what follows it.  Every round removes at least one byte when
    [sep] is not empty, so [String.length s] rounds are enough. *)
Fixpoint splitLoop (fuel : nat) (s sep : string) : list string :=
  match fuel with
  | O => [s]
  | S fuel' =>
      match Index s sep with
      | None => [s]
      | Some m =>
          String.substring 0 m s
            :: splitLoop fuel'
                 (String.substring (m + String.length sep)
                    (String.length s - (m + String.length sep)) s) sep
      end
  end.

(** [strings.Split(s, sep)] for a separator that is not empty, which is the
    only use the file makes of it. *)
Definition Split (s sep : string) : list string :=
  splitLoop (String.length s) s sep.

(** [strings.Join(elems, sep)]. *)
Definition Join (elems : list string) (sep : string) : string :=
  String.concat sep elems.

End strings.

(** ** The client and its name helpers *)

(** The fields of [client.Client] that this file reads, both [*string]. *)
Record Client : Type := {
  IdentityDomain : option string;
  UserName : option string
}.

(** [time.Time] and [time.Duration], in nanoseconds. *)
Definition Time := Z.
Definition Duration := Z.

Record StorageClient : Type := {
  client : option Client;
  authToken : option string;
  tokenIssued : Time
}.

Definition STR_ACCOUNT (domain : string) : string := "/Storage-" +:+ domain.
Definition STR_USERNAME (domain user : string) : string :=
  "/Storage-" +:+ domain +:+ ":" +:+ user.
Definition AUTH_HEADER : string := "X-Auth-Token".
Definition STR_QUALIFIED_NAME (version account name : string) : string :=
  version +:+ account +:+ "/" +:+ name.
Definition API_VERSION : string := "v1".

Definition getUserName (c : StorageClient) : Res string :=
  res_bind (deref (client c)) (fun cl =>
  res_bind (deref (IdentityDomain cl)) (fun domain =>
  res_bind (deref (UserName cl)) (fun user =>
  Val (STR_USERNAME domain user)))).

Definition getAccount (c : StorageClient) : Res string :=
  res_bind (deref (client c)) (fun cl =>
  res_bind (deref (IdentityDomain cl)) (fun domain =>
  Val (STR_ACCOUNT domain))).

Definition getQualifiedName (c : StorageClient) (name : string) : Res string :=
  if String.eqb name EmptyString then Val EmptyString
  else if strings.HasPrefix name "/Storage-"
          || strings.HasPrefix name (API_VERSION +:+ "/")
  then Val name
  else res_bind (getAccount c) (fun account =>
       Val (STR_QUALIFIED_NAME API_VERSION account name)).

(** [a[i:]] on a slice: panics unless [0 <= i <= len(a)]. *)
Definition sliceFrom {A} (a : list A) (i : Z) : Res (list A) :=
  if (0 <=? i) && (i <=? Z.of_nat (length a))
  then Val (drop (Z.to_nat i) a)
  else Panics SliceBoundsOutOfRange.

Definition getUnqualifiedName (name : string) : Res string :=
  if String.eqb name EmptyString then Val name
  else if negb (strings.Contains name "/") then Val name
  else
    let nameParts := strings.Split name "/" in
    res_bind (sliceFrom nameParts (Z.of_nat (length nameParts) - 1))
      (fun parts => Val (strings.Join parts "/")).

(** ** Requests, headers and time *)

(** [http.Header] maps a canonical key to the values added under it. *)
Abbreviation HttpHeader := (gmap string (list string)).

(** The parts of [http.Request] this file touches; [URL] is the text that
    [%s] prints for [req.URL]. *)
Record Request : Type := {
  Method : string;
  URL : string;
  Proto : string;
  Header : HttpHeader
}.

(** The [headers interface{}] argument: the nil interface, a
    [map[string]string] given by its entries in the order in which this
    execution's [range] visits them, or a value of any other dynamic type. *)
Inductive HeadersArg : Type :=
| NilInterface
| MapStringString (entries : list (string * string))
| OtherDynamicType.

(** A Go [error] that is not nil, by its message. *)
Definition error := string.

Definition Minute : Duration := 60 * 1000000000.

(** [Duration.Minutes()]: whole minutes plus the remaining nanoseconds as a
    fraction of a minute.  The value is kept exact; the [float64] of the Go
    code rounds it by less than 1e-14 near 25, 25 itself is a [float64], and
    the fraction is a multiple of 1/(6e10), so rounding does not change the
    comparison with 25 made below ([Minutes64] computes the rounded value). *)
Definition Minutes (d : Duration) : Q :=
  let min := Z.quot d Minute in
  let nsec := Z.rem d Minute in
  (inject_Z min + inject_Z nsec / inject_Z Minute)%Q.

Definition Qgtb (x y : Q) : bool := negb (Qle_bool x y).

(** The same in IEEE 754 binary64, as Go computes it:
    [float64(min) + float64(nsec)/(60*1e9)]. *)
Definition float64 (z : Z) : spec_float := binary_normalize 53 1024 z 0 false.

Definition Minutes64 (d : Duration) : spec_float :=
  let min := Z.quot d Minute in
  let nsec := Z.rem d Minute in
  SFadd 53 1024 (float64 min) (SFdiv 53 1024 (float64 nsec) (float64 Minute)).

Definition newline : string := String "010"%char EmptyString.

(** Line 55: [fmt.Sprintf("%s (%s) %s", req.Method, req.URL, req.Proto)]. *)
Definition requestLine (req : Request) : string :=
  Method req +:+ " (" +:+ URL req +:+ ") " +:+ Proto req.

(** [fmt] prints a [[]string] under [%s] as its elements between brackets,
    separated by one space. *)
Definition formatStringSlice (l : list string) : string :=
  "[" +:+ String.concat " " l +:+ "]".

Section StorageClient.

(** [opc.Config], the contents behind an [io.ReadSeeker] and
    [http.Response] are passed through untouched. *)
Context {Config Body Response : Type}.

(** [strings.ToLower] and [textproto.CanonicalMIMEHeaderKey]. *)
Variable ToLower : string -> string.
Variable CanonicalMIMEHeaderKey : string -> string.

(** [Header.Add(key, value)]: append under the canonical key. *)
Definition HeaderAdd (h : HttpHeader) (key value : string) : HttpHeader :=
  let key := CanonicalMIMEHeaderKey key in
  <[key := default [] (h !! key) ++ [value]]> h.

(** The values a header has under a key: [h[CanonicalMIMEHeaderKey(key)]]. *)
Definition HeaderValues (h : HttpHeader) (key : string) : list string :=
  default [] (h !! CanonicalMIMEHeaderKey key).

Definition addHeader (req : Request) (key value : string) : Request :=
  {| Method := Method req; URL := URL req; Proto := Proto req;
     Header := HeaderAdd (Header req) key value |}.

(** The body of the [range] loop, for the entries in visiting order: the
    request with the headers added, and [debugHeaders]. *)
Fixpoint rangeHeaders (entries : list (string * string)) (req : Request)
    (debugHeaders : list string) : Request * list string :=
  match entries with
  | [] => (req, debugHeaders)
  | (k, v) :: rest =>
      let debugHeaders :=
        debugHeaders ++ [ToLower k +:+ ": " +:+ v +:+ newline] in
      rangeHeaders rest (addHeader req k v) debugHeaders
  end.

(** Lines 58-66: the request and the debug string after the headers. *)
Definition attachHeaders (headers : HeadersArg) (req : Request)
    (debugReqString : string) : Res (Request * string) :=
  match headers with
  | NilInterface => Val (req, debugReqString)
  | OtherDynamicType => Panics InterfaceConversion
  | MapStringString entries =>
      let '(req, debugHeaders) := rangeHeaders entries req [] in
      Val (req,
           debugReqString +:+ newline +:+ formatStringSlice debugHeaders)
  end.

(** *** What the client asks of the code outside this file

    The generic client, the clock and the authentication routine
    ([getAuthenticationToken], in another file of the package) are
    calls to an environment; the answer type is the index.  The
    authentication routine has the client as its pointer receiver: it
    answers with the client as it leaves it and the error it returns. *)
Inductive Call : Type -> Type :=
| NewClient (c : Config) : Call (Client + error)
| BuildNonJSONRequest (cl : option Client) (method path : string)
    (body : option Body) : Call (Request + error)
| DebugLogString (cl : option Client) (s : string) : Call unit
| Since (t : Time) : Call Duration
| getAuthenticationToken (c : StorageClient)
    : Call (StorageClient * option error)
| ExecuteRequest (cl : option Client) (req : Request)
    : Call (Response + error).

(** A program: it returns, panics, or makes a call and goes on with the
    answer. *)
Inductive Prog (A : Type) : Type :=
| Ret (a : A)
| Panic (p : GoPanic)
| Do {X : Type} (call : Call X) (k : X -> Prog A).
Arguments Ret {A} a.
Arguments Panic {A} p.
Arguments Do {A X} call k.

Notation "x <~ c ;; k" := (Do c (fun x => k))
  (at level 100, c at next level, right associativity).

(** A call made only when [b] holds. *)
Definition doWhen {A} (b : bool) (call : Call unit) (k : Prog A) : Prog A :=
  if b then _ <~ call ;; k else k.

(** [NewStorageClient]; the result is Go's pair, [None] for nil. *)
Definition NewStorageClient (c : Config)
    : Prog (option StorageClient * option error) :=
  let sClient := {| client := None; authToken := None; tokenIssued := 0 |} in
  r <~ NewClient c ;;
  match r with
  | inr err => Ret (None, Some err)
  | inl opcClient =>
      let sClient :=
        {| client := Some opcClient; authToken := authToken sClient;
           tokenIssued := tokenIssued sClient |} in
      r <~ getAuthenticationToken sClient ;;
      match r with
      | (_, Some err) => Ret (None, Some err)
      | (sClient, None) => Ret (Some sClient, None)
      end
  end.

(** Lines 82-86. *)
Definition execute (c : StorageClient) (req : Request)
    : Prog (StorageClient * (option Response * option error)) :=
  r <~ ExecuteRequest (client c) req ;;
  match r with
  | inr err => Ret (c, (None, Some err))
  | inl resp => Ret (c, (Some resp, None))
  end.

(** Line 79, then the execution. *)
Definition attachTokenAndExecute (c : StorageClient) (req : Request)
    : Prog (StorageClient * (option Response * option error)) :=
  match deref (authToken c) with
  | Panics p => Panic p
  | Val token => execute c (addHeader req AUTH_HEADER token)
  end.

(** [executeRequestBody]; the result is the client as the call leaves it
    and Go's pair of response and error. *)
Definition executeRequestBody (c : StorageClient) (method path : string)
    (headers : HeadersArg) (body : option Body)
    : Prog (StorageClient * (option Response * option error)) :=
  r <~ BuildNonJSONRequest (client c) method path body ;;
  match r with
  | inr err => Ret (c, (None, Some err))
  | inl req =>
      let debugReqString := requestLine req in
      match attachHeaders headers req debugReqString with
      | Panics p => Panic p
      | Val (req, debugReqString) =>
          doWhen (negb (strings.Contains path "/auth/"))
            (DebugLogString (client c) debugReqString)
            match authToken c with
            | None => execute c req
            | Some _ =>
                d <~ Since (tokenIssued c) ;;
                if Qgtb (Minutes d) 25 then
                  r <~ getAuthenticationToken c ;;
                  match r with
                  | (c, Some err) => Ret (c, (None, Some err))
                  | (c, None) => attachTokenAndExecute c req
                  end
                else attachTokenAndExecute c req
            end
      end
  end.

(** [executeRequest]: a nil body. *)
Definition executeRequest (c : StorageClient) (method path : string)
    (headers : HeadersArg)
    : Prog (StorageClient * (option Response * option error)) :=
  executeRequestBody c method path headers None.

(** *** Running a program in an environment *)

(** A call together with the answer it got. *)
Inductive Event : Type :=
| EvNewClient (c : Config) (r : Client + error)
| EvBuildNonJSONRequest (cl : option Client) (method path : string)
    (body : option Body) (r : Request + error)
| EvDebugLogString (cl : option Client) (s : string)
| EvSince (t : Time) (d : Duration)
| EvGetAuthenticationToken (c : StorageClient)
    (r : StorageClient * option error)
| EvExecuteRequest (cl : option Client) (req : Request)
    (r : Response + error).

Definition event {X} (call : Call X) : X -> Event :=
  match call in Call X return X -> Event with
  | NewClient c => EvNewClient c
  | BuildNonJSONRequest cl method path body =>
      EvBuildNonJSONRequest cl method path body
  | DebugLogString cl s => fun _ => EvDebugLogString cl s
  | Since t => EvSince t
  | getAuthenticationToken c => EvGetAuthenticationToken c
  | ExecuteRequest cl req => EvExecuteRequest cl req
  end.

(** An environment answers every call and moves to its next state. *)
Definition Env (W : Type) : Type := forall X, Call X -> W -> X * W.

Record Run (A W : Type) : Type := {
  outcome : Res A;
  world : W;
  trace : list Event
}.
Arguments outcome {A W} _.
Arguments world {A W} _.
Arguments trace {A W} _.

Fixpoint run {A W} (env : Env W) (p : Prog A) (w : W) : Run A W :=
  match p with
  | Ret a => {| outcome := Val a; world := w; trace := [] |}
  | Panic q => {| outcome := Panics q; world := w; trace := [] |}
  | Do call k =>
      let '(x, w') := env _ call w in
      match run env (k x) w' with
      | {| outcome := o; world := w''; trace := tr |} =>
          {| outcome := o; world := w''; trace := event call x :: tr |}
      end
  end.

(** *** Reading a trace *)

Definition isReauth (e : Event) : bool :=
  match e with EvGetAuthenticationToken _ _ => true | _ => false end.

Definition isExecute (e : Event) : bool :=
  match e with EvExecuteRequest _ _ _ => true | _ => false end.

(** The number of re-authentication calls. *)
Fixpoint reauthCalls (tr : list Event) : nat :=
  match tr with
  | [] => 0%nat
  | EvGetAuthenticationToken _ _ :: tr => S (reauthCalls tr)
  | _ :: tr => reauthCalls tr
  end.

(** The readings of the clock: the time asked about and the time elapsed
    since. *)
Fixpoint clockReadings (tr : list Event) : list (Time * Duration) :=
  match tr with
  | [] => []
  | EvSince t d :: tr => (t, d) :: clockReadings tr
  | _ :: tr => clockReadings tr
  end.

(** The requests handed to [ExecuteRequest], in order. *)
Fixpoint executed (tr : list Event) : list Request :=
  match tr with
  | [] => []
  | EvExecuteRequest _ req _ :: tr => req :: executed tr
  | _ :: tr => executed tr
  end.

(** The strings handed to [DebugLogString], in order. *)
Fixpoint logged (tr : list Event) : list string :=
  match tr with
  | [] => []
  | EvDebugLogString _ s :: tr => s :: logged tr
  | _ :: tr => logged tr
  end.

(** Every re-authentication comes before every execution of a request. *)
Definition reauthBeforeExecute (tr : list Event) : Prop :=
  forall (i j : nat) (e e' : Event),
    tr !! i = Some e -> isReauth e = true ->
    tr !! j = Some e' -> isExecute e' = true ->
    (i < j)%nat.

End StorageClient.

Arguments Ret {Config Body Response A} a.
Arguments Panic {Config Body Response A} p.
Arguments Do {Config Body Response A X} call k.
Arguments outcome {Config Body Response A W} _.
Arguments world {Config Body Response A W} _.
Arguments trace {Config Body Response A W} _.

(** ** A scripted environment

    For running the client on examples: the configuration is trivial, bodies
    and responses are text, and every call is answered from a script, the
    same way each time. *)

Record Script : Type := {
  newClientAnswer : Client + error;
  buildAnswer : Request + error;
  elapsed : Duration;
  authAnswer : StorageClient -> StorageClient * option error;
  executeAnswer : string + error
}.

Definition scripted (s : Script) : @Env unit string string unit :=
  fun X call w =>
    (match call in Call X return X with
     | NewClient _ => newClientAnswer s
     | BuildNonJSONRequest _ _ _ _ => buildAnswer s
     | DebugLogString _ _ => tt
     | Since _ => elapsed s
     | getAuthenticationToken c => authAnswer s c
     | ExecuteRequest _ _ => executeAnswer s
     end, w).

(** [strings.ToLower] on ASCII text. *)
Definition lowerByte (a : ascii) : ascii :=
  let n := N_of_ascii a in
  if ((65 <=? n) && (n <=? 90))%N then ascii_of_N (n + 32) else a.

Fixpoint lowerASCII (s : string) : string :=
  match s with
  | EmptyString => EmptyString
  | String a s' => String (lowerByte a) (lowerASCII s')
  end.

(** [textproto.CanonicalMIMEHeaderKey] on keys that are canonical already. *)
Definition canonicalAlready (key : string) : string := key.

Definition sampleGenericClient : Client :=
  {| IdentityDomain := Some "acme"; UserName := Some "alice" |}.

Definition sampleClient : StorageClient :=
  {| client := Some sampleGenericClient; authToken := Some "token-1";
     tokenIssued := 0 |}.

Definition sampleClientWithoutToken : StorageClient :=
  {| client := Some sampleGenericClient; authToken := None;
     tokenIssued := 0 |}.

Definition sampleRequest : Request :=
  {| Method := "GET"; URL := "https://storage.example/v1/Storage-acme/box";
     Proto := "HTTP/1.1"; Header := ∅ |}.

Definition sampleHeaders : HeadersArg :=
  MapStringString [("X-Container-Meta-Owner", "alice")].

Definition refreshTo (token : string) (c : StorageClient)
    : StorageClient * option error :=
  ({| client := client c; authToken := Some token; tokenIssued := 1 |}, None).

Definition refreshFails (message : error) (c : StorageClient)
    : StorageClient * option error :=
  (c, Some message).

(** The token is 10 minutes old. *)
Definition freshTokenScript : Script :=
  {| newClientAnswer := inl sampleGenericClient;
     buildAnswer := inl sampleRequest;
     elapsed := 10 * Minute;
     authAnswer := refreshTo "token-2";
     executeAnswer := inl "204 No Content" |}.

(** The token is 30 minutes old and the re-authentication succeeds. *)
Definition staleTokenScript : Script :=
  {| newClientAnswer := inl sampleGenericClient;
     buildAnswer := inl sampleRequest;
     elapsed := 30 * Minute;
     authAnswer := refreshTo "token-2";
     executeAnswer := inl "204 No Content" |}.

(** The token is 30 minutes old and the re-authentication fails. *)
Definition failedRefreshScript : Script :=
  {| newClientAnswer := inl sampleGenericClient;
     buildAnswer := inl sampleRequest;
     elapsed := 30 * Minute;
     authAnswer := refreshFails "401 Unauthorized";
     executeAnswer := inl "204 No Content" |}.

(** The token is 30 minutes old and the request cannot be built. *)
Definition unbuiltRequestScript : Script :=
  {| newClientAnswer := inl sampleGenericClient;
     buildAnswer := inr "net/http: invalid method";
     elapsed := 30 * Minute;
     authAnswer := refreshTo "token-2";
     executeAnswer := inl "204 No Content" |}.

(** The token is 30 minutes old and the re-authentication returns no error
    but leaves the client without a token. *)
Definition refreshLosesToken (c : StorageClient)
    : StorageClient * option error :=
  ({| client := client c; authToken := None; tokenIssued := 1 |}, None).

Definition lostTokenScript : Script :=
  {| newClientAnswer := inl sampleGenericClient;
     buildAnswer := inl sampleRequest;
     elapsed := 30 * Minute;
     authAnswer := refreshLosesToken;
     executeAnswer := inl "204 No Content" |}.

(** A run of [executeRequestBody] on an example. *)
Definition sampleRun (s : Script) (c : StorageClient) (path : string)
    (headers : HeadersArg)
    : Run (StorageClient * (option string * option error)) unit :=
  run (scripted s)
    (executeRequestBody lowerASCII canonicalAlready c "GET" path headers None)
    tt.

(** ** [unqualify] and the strings its arguments point to *)

(** The strings behind [*string] pointers, by address.  A Go pointer that is
    not nil always points to a string, so every address has one; the nil
    pointer is [None]. *)
Abbreviation Heap := (nat -> string).

(** [unqualify(names ...*string)]: every pointed-to name is replaced in
    place by its unqualified form, in order.  The result is the heap as the
    call leaves it and the panic that ended the call, if one did. *)
Fixpoint unqualify (names : list (option nat)) (heap : Heap)
    : Heap * option GoPanic :=
  match names with
  | [] => (heap, None)
  | name :: rest =>
      match deref name with
      | Panics p => (heap, Some p)
      | Val address =>
          match getUnqualifiedName (heap address) with
          | Panics p => (heap, Some p)
          | Val unqualified => unqualify rest (<[address := unqualified]> heap)
          end
      end
  end.

(** Three strings, by address. *)
Definition sampleHeap : Heap :=
  fun address =>
    match address with
    | O => "v1/Storage-acme/box"
    | S O => "v1/Storage-acme/box/lid"
    | _ => "v1/Storage-acme/untouched"
    end.

(** The values the caller passes for a header, in the order of iteration:
    those of the entries whose key has the same canonical form. *)
Definition passedValues (CanonicalMIMEHeaderKey : string -> string)
    (headers : HeadersArg) (key : string) : list string :=
  match headers with
  | MapStringString entries =>
      map snd
        (filter (fun entry => CanonicalMIMEHeaderKey (fst entry)
                              = CanonicalMIMEHeaderKey key) entries)
  | _ => []
  end.

(** ** The kinds of call in a trace *)

Inductive CallKind : Type :=
| KNewClient
| KBuildNonJSONRequest
| KDebugLogString
| KSince
| KGetAuthenticationToken
| KExecuteRequest.

Definition kind {Config Body Response : Type}
    (e : @Event Config Body Response) : CallKind :=
  match e with
  | EvNewClient _ _ => KNewClient
  | EvBuildNonJSONRequest _ _ _ _ _ => KBuildNonJSONRequest
  | EvDebugLogString _ _ => KDebugLogString
  | EvSince _ _ => KSince
  | EvGetAuthenticationToken _ _ => KGetAuthenticationToken
  | EvExecuteRequest _ _ _ => KExecuteRequest
  end.


(** The line the debug string has for one header. *)
Definition debugHeaderLine (ToLower : string -> string)
    (entry : string * string) : string :=
  ToLower (fst entry) +:+ ": " +:+ snd entry +:+ newline.

(** * Properties *)

Example getQualifiedName_myobj :
  getQualifiedName
    {| client := Some {| IdentityDomain := Some "acme"; UserName := None |};
       authToken := None; tokenIssued := 0 |} "myobj"
  = Val "v1/Storage-acme/myobj".
Proof. reflexivity. Qed.

Example getUnqualifiedName_abc : getUnqualifiedName "a/b/c" = Val "c".
Proof. reflexivity. Qed.

Example getUnqualifiedName_trailing : getUnqualifiedName "a/b/" = Val EmptyString.
Proof. reflexivity. Qed.

(** ** Facts about the string functions *)

Section StringFacts.

Lemma prefix_append (p s : string) :
  String.prefix p s = true -> exists r, s = p +:+ r.
Proof.
  revert s; induction p as [|a p IH]; intros s H.
  - exists s; reflexivity.
  - destruct s as [|b s]; simpl in H; [discriminate|].
    destruct (ascii_dec a b) as [->|]; [|discriminate].
    destruct (IH _ H) as [r ->]. exists r; reflexivity.
Qed.

Lemma append_length (s t : string) :
  String.length (s +:+ t) = (String.length s + String.length t)%nat.
Proof. induction s; simpl; congruence. Qed.

Lemma append_assoc (s t u : string) : (s +:+ t) +:+ u = s +:+ t +:+ u.
Proof. induction s; simpl; congruence. Qed.

Lemma substring_whole (s : string) :
  String.substring 0 (String.length s) s = s.
Proof. induction s; simpl; congruence. Qed.

Lemma substring_append_l (pre x : string) :
  String.substring 0 (String.length pre) (pre +:+ x) = pre.
Proof.
  induction pre; simpl; [destruct x; reflexivity | congruence].
Qed.

Lemma substring_append_r (pre x : string) (n : nat) :
  String.substring (String.length pre) n (pre +:+ x) = String.substring 0 n x.
Proof. induction pre; simpl; auto. Qed.

Lemma Index_unfold (s substr : string) :
  strings.Index s substr =
  if String.prefix substr s then Some 0%nat
  else match s with
       | EmptyString => None
       | String _ s' => option_map S (strings.Index s' substr)
       end.
Proof. destruct s; reflexivity. Qed.

Lemma Index_Some (s sep : string) (m : nat) :
  strings.Index s sep = Some m ->
  exists pre r, s = pre +:+ sep +:+ r /\ String.length pre = m.
Proof.
  revert m; induction s as [|a s IH]; intros m H;
    rewrite Index_unfold in H;
    match type of H with (if ?b then _ else _) = _ => destruct b eqn:E end;
    try discriminate.
  - injection H as <-. destruct (prefix_append _ _ E) as [r Hr].
    exists EmptyString, r; split; [exact Hr | reflexivity].
  - injection H as <-. destruct (prefix_append _ _ E) as [r Hr].
    exists EmptyString, r; split; [exact Hr | reflexivity].
  - destruct (strings.Index s sep) as [k|] eqn:Ek; [|discriminate].
    injection H as <-. destruct (IH _ eq_refl) as (pre & r & -> & Hl).
    exists (String a pre), r; split; [reflexivity | simpl; congruence].
Qed.

(** What one round of the splitting loop leaves, for a cut at [pre]. *)
Lemma split_rest (pre sep r : string) :
  let s := pre +:+ sep +:+ r in
  let m := String.length pre in
  String.substring 0 m s = pre /\
  String.substring (m + String.length sep)
    (String.length s - (m + String.length sep)) s = r.
Proof.
  simpl; split; [apply substring_append_l|].
  rewrite !append_length.
  replace (String.length pre + (String.length sep + String.length r)
           - (String.length pre + String.length sep))%nat
    with (String.length r) by lia.
  rewrite <- (append_assoc pre sep r), <- append_length, substring_append_r.
  apply substring_whole.
Qed.

(** The last piece of a split is the text after the last separator. *)
Lemma splitLoop_last (sep : string) :
  sep <> EmptyString ->
  forall (fuel : nat) (s : string),
    (String.length s <= fuel)%nat ->
    exists r, last (strings.splitLoop fuel s sep) = Some r /\
              strings.Index r sep = None /\
              match strings.Index s sep with
              | None => r = s
              | Some _ => exists pre, s = pre +:+ sep +:+ r
              end.
Proof.
  intros Hsep fuel; induction fuel as [|fuel IH]; intros s Hlen.
  - destruct s; [|simpl in Hlen; lia].
    assert (E : strings.Index EmptyString sep = None).
    { destruct sep; [congruence | reflexivity]. }
    exists EmptyString; split; [reflexivity|]. rewrite E; auto.
  - cbn [strings.splitLoop]. destruct (strings.Index s sep) as [m|] eqn:E.
    + destruct (Index_Some _ _ _ E) as (pre & r0 & -> & Hm).
      destruct (split_rest pre sep r0) as [_ Hr]; simpl in Hr.
      rewrite <- Hm, Hr.
      destruct (IH r0) as (r & Hlast & Hnone & Hcase).
      { rewrite !append_length in Hlen.
        destruct sep; [congruence | simpl in Hlen; lia]. }
      exists r. split.
      { rewrite last_cons, Hlast; reflexivity. }
      split; [exact Hnone|].
      destruct (strings.Index r0 sep).
      * destruct Hcase as [pre' ->].
        exists (pre +:+ sep +:+ pre').
        now rewrite !append_assoc.
      * subst r0; exists pre; reflexivity.
    + exists s; split; [reflexivity|]. auto.
Qed.

Lemma splitLoop_length (fuel : nat) (s sep : string) :
  (1 <= length (strings.splitLoop fuel s sep))%nat.
Proof.
  destruct fuel; simpl; [lia|]. destruct (strings.Index s sep); simpl; lia.
Qed.

Lemma drop_last {A} (l : list A) (x : A) :
  last l = Some x -> drop (length l - 1) l = [x].
Proof.
  induction l as [|a [|b l] IH]; simpl; intros H; try discriminate.
  - congruence.
  - simpl in IH. rewrite Nat.sub_0_r in IH. apply IH, H.
Qed.

End StringFacts.

(** ** The name helpers *)

Section NameHelpers.

Variable c : StorageClient.

Lemma Contains_false_Index (s substr : string) :
  strings.Contains s substr = false <-> strings.Index s substr = None.
Proof.
  unfold strings.Contains. destruct (strings.Index s substr); split; congruence.
Qed.

(** C3. [getQualifiedName] gives the empty string for the empty name,
    gives back a name that starts with "/Storage-" or with "v1/", and
    otherwise gives "v1/Storage-{identityDomain}/{name}", where
    identityDomain is the identity domain the client points to. *)
Theorem getQualifiedName_spec (name : string) :
  getQualifiedName c EmptyString = Val EmptyString /\
  (strings.HasPrefix name "/Storage-" = true \/
   strings.HasPrefix name "v1/" = true ->
   getQualifiedName c name = Val name) /\
  (forall (cl : Client) (identityDomain : string),
     client c = Some cl ->
     IdentityDomain cl = Some identityDomain ->
     name <> EmptyString ->
     strings.HasPrefix name "/Storage-" = false ->
     strings.HasPrefix name "v1/" = false ->
     getQualifiedName c name
     = Val ("v1/Storage-" +:+ identityDomain +:+ "/" +:+ name)).
Proof.
  split; [reflexivity|]. split.
  - intros Hpre. unfold getQualifiedName.
    destruct (String.eqb_spec name EmptyString) as [->|_].
    + destruct Hpre; discriminate.
    + change (API_VERSION +:+ "/") with "v1/".
      destruct Hpre as [-> | ->]; [reflexivity|].
      now rewrite orb_true_r.
  - intros cl identityDomain Hcl Hdom Hne H1 H2. unfold getQualifiedName.
    destruct (String.eqb_spec name EmptyString) as [->|_]; [congruence|].
    change (API_VERSION +:+ "/") with "v1/". rewrite H1, H2. simpl.
    unfold getAccount. rewrite Hcl. simpl. rewrite Hdom. reflexivity.
Qed.

(** C4. Qualifying a qualified name changes nothing: applying
    [getQualifiedName] to its own result gives that result again (and a
    first application that panics stays that panic). *)
Theorem getQualifiedName_idempotent (x : string) :
  res_bind (getQualifiedName c x) (getQualifiedName c) = getQualifiedName c x.
Proof.
  unfold getQualifiedName at 1 3.
  destruct (String.eqb_spec x EmptyString) as [->|Hx]; [reflexivity|].
  destruct (strings.HasPrefix x "/Storage-"
            || strings.HasPrefix x (API_VERSION +:+ "/")) eqn:Hpre.
  - simpl. unfold getQualifiedName.
    destruct (String.eqb_spec x EmptyString) as [->|_]; [congruence|].
    now rewrite Hpre.
  - destruct (getAccount c) as [account|p] eqn:Hacc; [|reflexivity].
    unfold getAccount in Hacc.
    destruct (client c) as [cl|]; [|discriminate]. simpl in Hacc.
    destruct (IdentityDomain cl) as [domain|]; [|discriminate].
    injection Hacc as <-. reflexivity.
Qed.

End NameHelpers.

(** C5. [getUnqualifiedName] gives the empty string for the empty name,
    gives back a name without "/", and otherwise gives the segment after
    the last "/": the name is some text, a "/", and the result, and the
    result has no "/".  It never panics. *)
Theorem getUnqualifiedName_spec (name : string) :
  getUnqualifiedName EmptyString = Val EmptyString /\
  (strings.Contains name "/" = false -> getUnqualifiedName name = Val name) /\
  (strings.Contains name "/" = true ->
   exists pre segment : string,
     name = pre +:+ "/" +:+ segment /\
     strings.Contains segment "/" = false /\
     getUnqualifiedName name = Val segment).
Proof.
  split; [reflexivity|]. split.
  - intros H. unfold getUnqualifiedName. rewrite H. simpl.
    destruct (String.eqb name EmptyString); reflexivity.
  - intros H. unfold getUnqualifiedName. rewrite H. simpl.
    destruct (String.eqb_spec name EmptyString) as [->|_]; [discriminate|].
    destruct (splitLoop_last "/" ltac:(discriminate) (String.length name) name
                ltac:(lia)) as (r & Hlast & Hnone & Hcase).
    unfold strings.Contains in H.
    destruct (strings.Index name "/"); [|discriminate].
    destruct Hcase as [pre Hname]. exists pre, r.
    split; [exact Hname|]. split; [now apply Contains_false_Index|].
    unfold strings.Split, sliceFrom.
    pose proof (splitLoop_length (String.length name) name "/") as Hlen.
    set (parts := strings.splitLoop (String.length name) name "/") in *.
    replace ((0 <=? Z.of_nat (length parts) - 1)
             && (Z.of_nat (length parts) - 1 <=? Z.of_nat (length parts)))
      with true by (symmetry; apply andb_true_intro; split; apply Z.leb_le; lia).
    simpl. replace (Z.to_nat (Z.of_nat (length parts) - 1))
      with (length parts - 1)%nat by lia.
    rewrite (drop_last _ _ Hlast). reflexivity.
Qed.

(** ** Elapsed time *)

Lemma Qgtb_true (x y : Q) : Qgtb x y = true <-> (y < x)%Q.
Proof.
  unfold Qgtb. rewrite negb_true_iff, <- not_true_iff_false, Qle_bool_iff.
  split; [apply Qnot_le_lt | apply Qlt_not_le].
Qed.

(** The test [time.Since(t).Minutes() > 25] in nanoseconds. *)
Lemma Minutes_gt_25 (d : Duration) :
  Qgtb (Minutes d) 25 = true <-> 25 * Minute < d.
Proof.
  rewrite Qgtb_true. unfold Minutes, Qlt, Qplus, Qdiv, Qmult, Qinv, inject_Z.
  pose proof (Z.quot_rem' d Minute) as H. unfold Minute in *. simpl.
  lia.
Qed.

Lemma Minutes_le_25 (d : Duration) :
  Qgtb (Minutes d) 25 = false <-> d <= 25 * Minute.
Proof.
  rewrite <- not_true_iff_false, Minutes_gt_25. lia.
Qed.

Example Minutes_boundary :
  Qgtb (Minutes (25 * Minute)) 25 = false /\
  Qgtb (Minutes (25 * Minute + 1)) 25 = true.
Proof. split; reflexivity. Qed.

(** The binary64 value gives the same answers where rounding could matter
    most: one nanosecond either side of 25 minutes, at the ends of a minute,
    and at the ends of the range of [Duration]. *)
Example Minutes64_agrees :
  Forall (fun d => SFltb (float64 25) (Minutes64 d) = Qgtb (Minutes d) 25)
    [25 * Minute - 1; 25 * Minute; 25 * Minute + 1;
     24 * Minute + (Minute - 1); 26 * Minute - 1; 26 * Minute;
     0; 1; -1; - (30 * Minute); 2 ^ 63 - 1; - 2 ^ 63].
Proof. repeat constructor. Qed.

(** ** The request path *)

Section RequestPath.

Context {Config Body Response : Type}.
Variables ToLower CanonicalMIMEHeaderKey : string -> string.
Context {W : Type}.
Variable env : @Env Config Body Response W.

Local Abbreviation call_executeRequestBody :=
  (executeRequestBody ToLower CanonicalMIMEHeaderKey).
Local Abbreviation attach := (attachHeaders ToLower CanonicalMIMEHeaderKey).

(** Case analysis on everything a run of [executeRequestBody] depends
    on: the answers of the environment, the headers, the path, the
    token. *)
Ltac explore :=
  unfold executeRequestBody, doWhen, attachTokenAndExecute, execute,
    attachHeaders, deref;
  repeat (cbn [run outcome world trace event negb];
    match goal with
    | |- context [env ?X ?call ?w] =>
        let x := fresh "answer" in
        let w' := fresh "w" in
        destruct (env X call w) as [x w'] eqn:?;
        lazymatch type of x with
        | (_ * option _)%type => destruct x as [? [?|]]
        | _ => idtac
        end
    | |- context [match ?s with inl _ => _ | inr _ => _ end] =>
        destruct s eqn:?
    | |- context [match ?h with NilInterface => _ | _ => _ end] =>
        destruct h eqn:?
    | |- context [rangeHeaders ?T ?e ?r ?l] =>
        destruct (rangeHeaders T e r l) eqn:?
    | |- context [if negb ?b then _ else _] => destruct b eqn:?
    | |- context [match authToken ?c with Some _ => _ | None => _ end] =>
        destruct (authToken c) eqn:?
    | |- context [if Qgtb ?x ?y then _ else _] => destruct (Qgtb x y) eqn:?
    end);
  cbn [run outcome world trace event negb].

(** Membership in an explicit trace, one event at a time. *)
Ltac pick H :=
  repeat (destruct H as [H|H]; [try discriminate H | ]); try contradiction H.

(** C2. When the re-authentication made by a call of
    [executeRequestBody] fails, the call returns nil and that error, and
    [ExecuteRequest] is not invoked. *)
Theorem failed_reauth_aborts (c : StorageClient) (method path : string)
    (headers : HeadersArg) (body : option Body) (w : W)
    (c0 c1 : StorageClient) (err : error) :
  let R := run env (call_executeRequestBody c method path headers body) w in
  In (EvGetAuthenticationToken c0 (c1, Some err)) (trace R) ->
  outcome R = Val (c1, (None, Some err)) /\ executed (trace R) = [].
Proof.
  explore; intros H; cbn in H; pick H.
  all: injection H as -> -> ->; split; reflexivity.
Qed.

(** What a call hands to the debug log depends on the answer to
    [BuildNonJSONRequest], the headers and the path, and on nothing else. *)
Lemma logged_executeRequestBody (c : StorageClient) (method path : string)
    (headers : HeadersArg) (body : option Body) (w : W) :
  logged (trace (run env (call_executeRequestBody c method path headers body) w))
  = match fst (env _ (BuildNonJSONRequest (client c) method path body) w) with
    | inr _ => []
    | inl req =>
        match attach headers req (requestLine req) with
        | Panics _ => []
        | Val (_, debugReqString) =>
            if strings.Contains path "/auth/" then [] else [debugReqString]
        end
    end.
Proof.
  unfold executeRequestBody. cbn [run].
  destruct (env _ _ w) as [[req|e] w0]; cbn [fst]; [|reflexivity].
  explore; reflexivity.
Qed.

Lemma built_request (c : StorageClient) (method path : string)
    (headers : HeadersArg) (body : option Body) (w : W) (req : Request) :
  In (EvBuildNonJSONRequest (client c) method path body (inl req))
    (trace (run env (call_executeRequestBody c method path headers body) w)) ->
  fst (env _ (BuildNonJSONRequest (client c) method path body) w) = inl req.
Proof.
  unfold executeRequestBody. cbn [run].
  destruct (env _ _ w) as [[req0|e] w0]; cbn [fst].
  - explore; intros H; cbn in H; pick H.
    all: injection H as ->; reflexivity.
  - cbn. intros H; pick H.
Qed.

(** C7, as the code has it. A call whose path contains "/auth/" hands
    nothing to the debug log.  A call whose path does not contain it,
    whose request was built and whose headers are nil or a
    [map[string]string], hands the debug string to the log, once. *)
Theorem debug_log_by_path (c : StorageClient) (method path : string)
    (headers : HeadersArg) (body : option Body) (w : W) :
  let R := run env (call_executeRequestBody c method path headers body) w in
  (strings.Contains path "/auth/" = true -> logged (trace R) = []) /\
  (strings.Contains path "/auth/" = false ->
   forall (req req' : Request) (debugReqString : string),
     In (EvBuildNonJSONRequest (client c) method path body (inl req))
       (trace R) ->
     attach headers req (requestLine req) = Val (req', debugReqString) ->
     logged (trace R) = [debugReqString]).
Proof.
  cbv zeta. rewrite logged_executeRequestBody. split.
  - intros ->.
    destruct (fst (env _ _ w)) as [req|]; [|reflexivity].
    destruct (attach headers req (requestLine req)) as [[? ?]|]; reflexivity.
  - intros -> req req' debugReqString Hbuilt Hattach.
    rewrite (built_request _ _ _ _ _ _ _ Hbuilt), Hattach. reflexivity.
Qed.

(** C9. Two clients that differ only in the token hand the same strings to
    the debug log, whatever the path: the token is attached after the
    logging. *)
Theorem debug_log_independent_of_token (c : StorageClient)
    (token' : option string) (method path : string) (headers : HeadersArg)
    (body : option Body) (w : W) :
  let c' := {| client := client c; authToken := token';
               tokenIssued := tokenIssued c |} in
  logged (trace (run env (call_executeRequestBody c method path headers body) w))
  = logged (trace (run env (call_executeRequestBody c' method path headers body) w)).
Proof.
  cbv zeta. rewrite !logged_executeRequestBody. reflexivity.
Qed.

(** A call whose request cannot be built does nothing more: it returns nil
    and the error of the build, whatever the headers are, leaves the client
    as it was and makes no other call. *)
Lemma unbuilt_returns_error (c : StorageClient) (method path : string)
    (headers : HeadersArg) (body : option Body) (w : W) (err : error) :
  let R := run env (call_executeRequestBody c method path headers body) w in
  In (EvBuildNonJSONRequest (client c) method path body (inr err)) (trace R) ->
  outcome R = Val (c, (None, Some err)) /\
  trace R = [EvBuildNonJSONRequest (client c) method path body (inr err)].
Proof.
  explore; intros H; cbn in H; pick H.
  injection H as ->. split; reflexivity.
Qed.

(** C10, as the code has it. With headers that are neither nil nor a
    [map[string]string], a call whose request was built panics at the type
    assertion, and nothing follows the building of the request: no
    logging, no request executed.  With headers that are nil or a
    [map[string]string] the call does not panic there.  A call whose
    request cannot be built returns nil and the error of the build, and
    does not panic, whatever the headers are. *)
Theorem headers_type_assertion (c : StorageClient) (method path : string)
    (headers : HeadersArg) (body : option Body) (w : W) :
  let R := run env (call_executeRequestBody c method path headers body) w in
  (headers = OtherDynamicType ->
   forall req : Request,
     In (EvBuildNonJSONRequest (client c) method path body (inl req))
       (trace R) ->
     outcome R = Panics InterfaceConversion /\
     trace R = [EvBuildNonJSONRequest (client c) method path body (inl req)])
  /\
  (headers <> OtherDynamicType -> outcome R <> Panics InterfaceConversion)
  /\
  (forall err : error,
     In (EvBuildNonJSONRequest (client c) method path body (inr err))
       (trace R) ->
     outcome R = Val (c, (None, Some err)) /\
     (forall p : GoPanic, outcome R <> Panics p) /\
     trace R = [EvBuildNonJSONRequest (client c) method path body (inr err)]).
Proof.
  split; [|split].
  - intros ->. explore; intros req H; cbn in H; pick H.
    injection H as ->. split; reflexivity.
  - explore; intros H; try discriminate; congruence.
  - cbv zeta. intros err H.
    destruct (unbuilt_returns_error _ _ _ _ _ _ _ H) as [Ho Ht].
    split; [exact Ho|]. split; [|exact Ht]. rewrite Ho. discriminate.
Qed.

(** Positions in an explicit trace. *)
Ltac find_index i Hi Hp :=
  repeat (destruct i as [|i];
          [cbn in Hi; injection Hi as <-; cbn in Hp; try discriminate Hp
          |cbn in Hi]);
  try discriminate Hi.

Ltac ordered :=
  let i := fresh "i" in
  let j := fresh "j" in
  let Hi := fresh "Hi" in
  let Hj := fresh "Hj" in
  let Hr := fresh "Hr" in
  let He := fresh "He" in
  intros i j ? ? Hi Hr Hj He;
  find_index i Hi Hr; find_index j Hj He; lia.

(** C1, as the code has it. On a client holding a token, a call whose
    request was built and whose headers are nil or a [map[string]string]
    reads the time elapsed since the token was issued, once.  If that is
    at most 25 minutes, the call makes no re-authentication call; if it
    is more, the call makes exactly one, before any request is
    executed. *)
Theorem reauth_by_elapsed_time (c : StorageClient) (method path : string)
    (headers : HeadersArg) (body : option Body) (w : W)
    (token : string) (req req' : Request) (debugReqString : string) :
  let R := run env (call_executeRequestBody c method path headers body) w in
  authToken c = Some token ->
  In (EvBuildNonJSONRequest (client c) method path body (inl req))
    (trace R) ->
  attach headers req (requestLine req) = Val (req', debugReqString) ->
  exists d : Duration,
    clockReadings (trace R) = [(tokenIssued c, d)] /\
    (d <= 25 * Minute -> reauthCalls (trace R) = 0%nat) /\
    (25 * Minute < d ->
     reauthCalls (trace R) = 1%nat /\ reauthBeforeExecute (trace R)).
Proof.
  explore; intros Htoken Hbuilt Hattach; try discriminate Htoken;
    cbn in Hbuilt; pick Hbuilt; injection Hbuilt as <-;
    try discriminate Hattach.
  all: match goal with
       | H : Qgtb (Minutes ?d) 25 = true |- _ =>
           apply Minutes_gt_25 in H; exists d
       | H : Qgtb (Minutes ?d) 25 = false |- _ =>
           apply Minutes_le_25 in H; exists d
       end.
  all: split; [reflexivity|]; split; intros Hd; try lia.
  all: try reflexivity.
  all: split; [reflexivity | ordered].
Qed.

Lemma HeaderValues_addHeader (req : Request) (key value : string) :
  HeaderValues CanonicalMIMEHeaderKey
    (Header (addHeader CanonicalMIMEHeaderKey req key value)) key
  = HeaderValues CanonicalMIMEHeaderKey (Header req) key ++ [value].
Proof.
  unfold HeaderValues, addHeader, HeaderAdd. cbn [Header].
  rewrite lookup_insert_eq. reflexivity.
Qed.

(** The request a call executes, for the request that was built. *)
Lemma token_header_when_sent (c : StorageClient) (method path : string)
    (headers : HeadersArg) (body : option Body) (w : W)
    (req : Request) (cl : option Client) (sent : Request)
    (answer : Response + error) :
  let R := run env (call_executeRequestBody c method path headers body) w in
  In (EvBuildNonJSONRequest (client c) method path body (inl req))
    (trace R) ->
  In (EvExecuteRequest cl sent answer) (trace R) ->
  exists (req' : Request) (debugReqString : string),
    attach headers req (requestLine req) = Val (req', debugReqString) /\
    match authToken c with
    | None => sent = req'
    | Some _ =>
        exists (c' : StorageClient) (result : option Response * option error)
               (token : string),
          outcome R = Val (c', result) /\
          authToken c' = Some token /\
          sent = addHeader CanonicalMIMEHeaderKey req' AUTH_HEADER token /\
          HeaderValues CanonicalMIMEHeaderKey (Header sent) AUTH_HEADER
          = HeaderValues CanonicalMIMEHeaderKey (Header req') AUTH_HEADER
            ++ [token]
    end.
Proof.
  explore; intros Hbuilt Hsent; cbn in Hbuilt, Hsent;
    pick Hbuilt; injection Hbuilt as <-; pick Hsent;
    injection Hsent as <- <- <-;
    repeat match goal with
           | H1 : ?x = (_, _), H2 : ?x = (_, _) |- _ =>
               rewrite H1 in H2; injection H2 as <- <-
           end.
  all: do 2 eexists; split; [reflexivity|]; try reflexivity.
  all: do 3 eexists; split; [reflexivity|].
  all: split; [eassumption|]; split; [reflexivity|].
  all: apply HeaderValues_addHeader.
Qed.

(** A request is executed only after it was built. *)
Lemma executed_after_build (c : StorageClient) (method path : string)
    (headers : HeadersArg) (body : option Body) (w : W)
    (cl : option Client) (sent : Request) (answer : Response + error) :
  let R := run env (call_executeRequestBody c method path headers body) w in
  In (EvExecuteRequest cl sent answer) (trace R) ->
  exists req : Request,
    In (EvBuildNonJSONRequest (client c) method path body (inl req)) (trace R).
Proof.
  explore; intros H; cbn in H; pick H.
  all: eexists; left; reflexivity.
Qed.

(** A failed re-authentication is the end of the call. *)
Lemma failed_reauth_executes_nothing (c : StorageClient)
    (method path : string) (headers : HeadersArg) (body : option Body) (w : W)
    (c0 c1 : StorageClient) (err : error) :
  let R := run env (call_executeRequestBody c method path headers body) w in
  In (EvGetAuthenticationToken c0 (c1, Some err)) (trace R) ->
  executed (trace R) = [].
Proof.
  explore; intros H; cbn in H; pick H.
  all: reflexivity.
Qed.

(** C6, as the code has it. When a call executes a request: on a client
    holding no token, that request is the built request with the headers
    of the caller and nothing else, so no X-Auth-Token header was
    attached; on a client holding a token, that request is the same with
    the token the client holds after any refresh added as the last value
    of X-Auth-Token.  A request is executed only after it was built.  A
    call whose request cannot be built, or whose re-authentication fails,
    executes no request, so it attaches the token to nothing. *)
Theorem token_header (c : StorageClient) (method path : string)
    (headers : HeadersArg) (body : option Body) (w : W) :
  let R := run env (call_executeRequestBody c method path headers body) w in
  (forall (req : Request) (cl : option Client) (sent : Request)
          (answer : Response + error),
     In (EvBuildNonJSONRequest (client c) method path body (inl req))
       (trace R) ->
     In (EvExecuteRequest cl sent answer) (trace R) ->
     exists (req' : Request) (debugReqString : string),
       attach headers req (requestLine req) = Val (req', debugReqString) /\
       match authToken c with
       | None => sent = req'
       | Some _ =>
           exists (c' : StorageClient)
                  (result : option Response * option error) (token : string),
             outcome R = Val (c', result) /\
             authToken c' = Some token /\
             sent = addHeader CanonicalMIMEHeaderKey req' AUTH_HEADER token /\
             HeaderValues CanonicalMIMEHeaderKey (Header sent) AUTH_HEADER
             = HeaderValues CanonicalMIMEHeaderKey (Header req') AUTH_HEADER
               ++ [token]
       end) /\
  (forall (cl : option Client) (sent : Request) (answer : Response + error),
     In (EvExecuteRequest cl sent answer) (trace R) ->
     exists req : Request,
       In (EvBuildNonJSONRequest (client c) method path body (inl req))
         (trace R)) /\
  (forall err : error,
     In (EvBuildNonJSONRequest (client c) method path body (inr err))
       (trace R) ->
     executed (trace R) = [] /\ outcome R = Val (c, (None, Some err))) /\
  (forall (c0 c1 : StorageClient) (err : error),
     In (EvGetAuthenticationToken c0 (c1, Some err)) (trace R) ->
     executed (trace R) = []).
Proof.
  cbv zeta. split; [|split; [|split]].
  - intros req cl sent answer. apply token_header_when_sent.
  - intros cl sent answer. apply executed_after_build.
  - intros err H.
    destruct (unbuilt_returns_error _ _ _ _ _ _ _ H) as [Ho Ht].
    split; [now rewrite Ht | exact Ho].
  - intros c0 c1 err. apply failed_reauth_executes_nothing.
Qed.

(** C8. [NewStorageClient] ends in one of three ways: the generic client
    could not be built, and the result is nil and that error, without
    any authentication; the client was built and the authentication
    failed, and the result is nil and that error; the client was built
    and the authentication succeeded, and the result is the client as
    the authentication left it, with no error. *)
Theorem NewStorageClient_all_or_nothing (config : Config) (w : W) :
  let R := run env (NewStorageClient config) w in
  let fresh (opcClient : Client) :=
    {| client := Some opcClient; authToken := None; tokenIssued := 0 |} in
  (exists err : error,
      trace R = [EvNewClient config (inr err)] /\
      outcome R = Val (None, Some err))
  \/ (exists (opcClient : Client) (c' : StorageClient) (err : error),
         trace R = [EvNewClient config (inl opcClient);
                    EvGetAuthenticationToken (fresh opcClient) (c', Some err)] /\
         outcome R = Val (None, Some err))
  \/ (exists (opcClient : Client) (c' : StorageClient),
         trace R = [EvNewClient config (inl opcClient);
                    EvGetAuthenticationToken (fresh opcClient) (c', None)] /\
         outcome R = Val (Some c', None)).
Proof.
  unfold NewStorageClient. cbn [run authToken tokenIssued].
  destruct (env _ (NewClient config) w) as [[opcClient|err] w1].
  - cbn [run].
    destruct (env _ (getAuthenticationToken _) w1) as [[c' [err|]] w2];
      cbn [run outcome trace event]; right; [left | right]; eauto.
  - left. exists err. split; reflexivity.
Qed.

End RequestPath.

(** ** The properties on examples *)

Example sampleRun_fresh :
  trace (sampleRun freshTokenScript sampleClient "v1/auth/box" sampleHeaders)
  = [EvBuildNonJSONRequest (Some sampleGenericClient) "GET" "v1/auth/box" None
       (inl sampleRequest);
     EvSince 0 (10 * Minute);
     EvExecuteRequest (Some sampleGenericClient)
       (addHeader canonicalAlready
          (addHeader canonicalAlready sampleRequest
             "X-Container-Meta-Owner" "alice")
          AUTH_HEADER "token-1")
       (inl "204 No Content")].
Proof. reflexivity. Qed.

Example sampleRun_without_token :
  trace (sampleRun staleTokenScript sampleClientWithoutToken "box" NilInterface)
  = [EvBuildNonJSONRequest (Some sampleGenericClient) "GET" "box" None
       (inl sampleRequest);
     EvDebugLogString (Some sampleGenericClient)
       "GET (https://storage.example/v1/Storage-acme/box) HTTP/1.1";
     EvExecuteRequest (Some sampleGenericClient) sampleRequest
       (inl "204 No Content")].
Proof. reflexivity. Qed.

Example sampleRun_stale :
  trace (sampleRun staleTokenScript sampleClient "v1/Storage-acme/box"
           NilInterface)
  = [EvBuildNonJSONRequest (Some sampleGenericClient) "GET"
       "v1/Storage-acme/box" None (inl sampleRequest);
     EvDebugLogString (Some sampleGenericClient)
       "GET (https://storage.example/v1/Storage-acme/box) HTTP/1.1";
     EvSince 0 (30 * Minute);
     EvGetAuthenticationToken sampleClient (refreshTo "token-2" sampleClient);
     EvExecuteRequest (Some sampleGenericClient)
       (addHeader canonicalAlready sampleRequest AUTH_HEADER "token-2")
       (inl "204 No Content")].
Proof. reflexivity. Qed.

Lemma getQualifiedName_spec_witness :
  getQualifiedName sampleClient "myobj" = Val "v1/Storage-acme/myobj".
Proof.
  destruct (getQualifiedName_spec sampleClient "myobj") as (_ & _ & H).
  apply (H sampleGenericClient "acme");
    [reflexivity | reflexivity | discriminate | reflexivity | reflexivity].
Defined.

Lemma getUnqualifiedName_spec_witness :
  exists pre segment : string,
    "a/b/c" = pre +:+ "/" +:+ segment /\
    strings.Contains segment "/" = false /\
    getUnqualifiedName "a/b/c" = Val segment.
Proof.
  destruct (getUnqualifiedName_spec "a/b/c") as (_ & _ & H).
  apply H. reflexivity.
Defined.

Lemma failed_reauth_aborts_witness :
  let R := sampleRun failedRefreshScript sampleClient "box" NilInterface in
  outcome R = Val (sampleClient, (None, Some "401 Unauthorized")) /\
  executed (trace R) = [].
Proof.
  apply (failed_reauth_aborts lowerASCII canonicalAlready
           (scripted failedRefreshScript) sampleClient "GET" "box" NilInterface
           None tt sampleClient sampleClient "401 Unauthorized").
  simpl. do 3 right. left. reflexivity.
Defined.

Lemma reauth_by_elapsed_time_witness :
  let R := sampleRun staleTokenScript sampleClient "box" sampleHeaders in
  exists d : Duration,
    clockReadings (trace R) = [(0, d)] /\
    (d <= 25 * Minute -> reauthCalls (trace R) = 0%nat) /\
    (25 * Minute < d ->
     reauthCalls (trace R) = 1%nat /\ reauthBeforeExecute (trace R)).
Proof.
  eapply (reauth_by_elapsed_time lowerASCII canonicalAlready
            (scripted staleTokenScript) sampleClient "GET" "box" sampleHeaders
            None tt "token-1" sampleRequest).
  - reflexivity.
  - simpl. left. reflexivity.
  - reflexivity.
Defined.

Lemma token_header_witness :
  let R := sampleRun staleTokenScript sampleClient "box" sampleHeaders in
  exists (req' : Request) (debugReqString : string),
    attachHeaders lowerASCII canonicalAlready sampleHeaders sampleRequest
      (requestLine sampleRequest) = Val (req', debugReqString) /\
    exists (c' : StorageClient) (result : option string * option error)
           (token : string),
      outcome R = Val (c', result) /\
      authToken c' = Some token /\
      addHeader canonicalAlready req' AUTH_HEADER "token-2"
      = addHeader canonicalAlready req' AUTH_HEADER token /\
      HeaderValues canonicalAlready
        (Header (addHeader canonicalAlready req' AUTH_HEADER "token-2"))
        AUTH_HEADER
      = HeaderValues canonicalAlready (Header req') AUTH_HEADER ++ [token].
Proof.
  destruct (token_header lowerASCII canonicalAlready
              (scripted staleTokenScript) sampleClient "GET" "box" sampleHeaders
              None tt) as [Hsent _].
  destruct (Hsent sampleRequest (Some sampleGenericClient)
              (addHeader canonicalAlready
                 (addHeader canonicalAlready sampleRequest
                    "X-Container-Meta-Owner" "alice")
                 AUTH_HEADER "token-2")
              (inl "204 No Content"))
    as (req' & debugReqString & Hattach & H).
  - simpl. left. reflexivity.
  - simpl. do 4 right. left. reflexivity.
  - injection Hattach as <- <-. eexists _, _. split; [reflexivity|]. exact H.
Defined.

Lemma debug_log_by_path_witness :
  logged (trace (sampleRun freshTokenScript sampleClient "box" sampleHeaders))
  = [requestLine sampleRequest +:+ newline
     +:+ formatStringSlice ["x-container-meta-owner: alice" +:+ newline]].
Proof.
  destruct (debug_log_by_path lowerASCII canonicalAlready
              (scripted freshTokenScript) sampleClient "GET" "box" sampleHeaders
              None tt) as [_ H].
  eapply (H eq_refl sampleRequest).
  - simpl. left. reflexivity.
  - reflexivity.
Defined.

Lemma headers_type_assertion_witness :
  let R := sampleRun freshTokenScript sampleClient "box" OtherDynamicType in
  outcome R = Panics InterfaceConversion /\
  trace R = [EvBuildNonJSONRequest (Some sampleGenericClient) "GET" "box" None
               (inl sampleRequest)].
Proof.
  destruct (headers_type_assertion lowerASCII canonicalAlready
              (scripted freshTokenScript) sampleClient "GET" "box"
              OtherDynamicType None tt) as [H _].
  apply (H eq_refl sampleRequest). simpl. left. reflexivity.
Defined.

(** ** Where the sentences of the specification go too far *)

(** C1 as stated fails: the token is 30 minutes old, yet a call whose
    request cannot be built, or whose headers have another dynamic type,
    makes no re-authentication call. *)
Lemma stale_token_without_reauth :
  let unbuilt := sampleRun unbuiltRequestScript sampleClient "box" NilInterface in
  let mistyped := sampleRun staleTokenScript sampleClient "box" OtherDynamicType in
  authToken sampleClient = Some "token-1" /\
  fst (scripted unbuiltRequestScript _ (Since (tokenIssued sampleClient)) tt)
  = 30 * Minute /\
  fst (scripted staleTokenScript _ (Since (tokenIssued sampleClient)) tt)
  = 30 * Minute /\
  25 * Minute < 30 * Minute /\
  reauthCalls (trace unbuilt) <> 1%nat /\
  reauthCalls (trace mistyped) <> 1%nat.
Proof. repeat split; try reflexivity; discriminate. Qed.

(** C6 as stated fails.  The client holds a token, yet a call whose
    re-authentication fails, or whose request cannot be built, executes no
    request, so the token is attached to none.  And a client without a
    token sends an X-Auth-Token header when the caller passes one among the
    headers. *)
Lemma token_held_but_not_attached :
  let failed := sampleRun failedRefreshScript sampleClient "box" NilInterface in
  let unbuilt := sampleRun unbuiltRequestScript sampleClient "box" NilInterface in
  let passed :=
    sampleRun freshTokenScript sampleClientWithoutToken "box"
      (MapStringString [("X-Auth-Token", "from-the-caller")]) in
  authToken sampleClient = Some "token-1" /\
  executed (trace failed) = [] /\
  outcome failed = Val (sampleClient, (None, Some "401 Unauthorized")) /\
  executed (trace unbuilt) = [] /\
  outcome unbuilt = Val (sampleClient, (None, Some "net/http: invalid method")) /\
  authToken sampleClientWithoutToken = None /\
  map (fun sent => HeaderValues canonicalAlready (Header sent) AUTH_HEADER)
    (executed (trace passed))
  = [["from-the-caller"]].
Proof. repeat split; reflexivity. Qed.

(** C7 as stated fails: the path has no "/auth/", yet a call whose request
    cannot be built, or whose headers have another dynamic type, hands
    nothing to the debug log. *)
Lemma path_without_auth_not_logged :
  let unbuilt := sampleRun unbuiltRequestScript sampleClient "box" NilInterface in
  let mistyped := sampleRun freshTokenScript sampleClient "box" OtherDynamicType in
  strings.Contains "box" "/auth/" = false /\
  logged (trace unbuilt) = [] /\
  outcome unbuilt = Val (sampleClient, (None, Some "net/http: invalid method")) /\
  logged (trace mistyped) = [] /\
  outcome mistyped = Panics InterfaceConversion.
Proof. repeat split; reflexivity. Qed.

(** C10 as stated fails: the headers have another dynamic type, yet a call
    whose request cannot be built returns the error of the build and does
    not panic. *)
Lemma mistyped_headers_without_panic :
  let unbuilt :=
    sampleRun unbuiltRequestScript sampleClient "box" OtherDynamicType in
  outcome unbuilt = Val (sampleClient, (None, Some "net/http: invalid method")) /\
  outcome unbuilt <> Panics InterfaceConversion.
Proof. split; [reflexivity | discriminate]. Qed.

(** * More of the code *)

(** ** More on the name helpers *)

Lemma Index_append_sep (pre sep r : string) :
  strings.Index (pre +:+ sep +:+ r) sep <> None.
Proof.
  induction pre as [|a pre IH]; rewrite Index_unfold.
  - assert (E : String.prefix sep (sep +:+ r) = true).
    { clear. induction sep as [|b sep IH]; simpl; [destruct r; reflexivity|].
      destruct (ascii_dec b b); [exact IH | congruence]. }
    simpl. rewrite E. discriminate.
  - destruct (String.prefix sep (String a pre +:+ sep +:+ r)); [discriminate|].
    simpl. destruct (strings.Index (pre +:+ sep +:+ r) sep); [discriminate|].
    congruence.
Qed.

(** The text after the last "/" is determined by the name. *)
Lemma last_segment_unique (p1 p2 r1 r2 : string) :
  p1 +:+ "/" +:+ r1 = p2 +:+ "/" +:+ r2 ->
  strings.Index r1 "/" = None ->
  strings.Index r2 "/" = None ->
  r1 = r2.
Proof.
  revert p2; induction p1 as [|a p1 IH]; intros [|b p2] H H1 H2; simpl in H.
  - congruence.
  - injection H as _ Hr. subst r1.
    now destruct (Index_append_sep p2 "/" r2).
  - injection H as _ Hr. subst r2.
    now destruct (Index_append_sep p1 "/" r1).
  - injection H as _ H. eauto.
Qed.

(** [getUnqualifiedName] always has a value: the name itself when it has no
    "/", else the text after a "/" of the name; the value has no "/". *)
Lemma getUnqualifiedName_value (name : string) :
  exists segment : string,
    getUnqualifiedName name = Val segment /\
    strings.Index segment "/" = None /\
    match strings.Index name "/" with
    | None => segment = name
    | Some _ => exists pre, name = pre +:+ "/" +:+ segment
    end.
Proof.
  unfold getUnqualifiedName, strings.Contains.
  destruct (String.eqb_spec name EmptyString) as [->|Hne].
  - exists EmptyString. repeat split.
  - destruct (splitLoop_last "/" ltac:(discriminate) (String.length name) name
                ltac:(lia)) as (r & Hlast & Hnone & Hcase).
    destruct (strings.Index name "/") eqn:E; simpl.
    + exists r. split; [|split; assumption].
      unfold strings.Split, sliceFrom.
      pose proof (splitLoop_length (String.length name) name "/") as Hlen.
      set (parts := strings.splitLoop (String.length name) name "/") in *.
      replace ((0 <=? Z.of_nat (length parts) - 1)
               && (Z.of_nat (length parts) - 1 <=? Z.of_nat (length parts)))
        with true
        by (symmetry; apply andb_true_intro; split; apply Z.leb_le; lia).
      simpl. replace (Z.to_nat (Z.of_nat (length parts) - 1))
        with (length parts - 1)%nat by lia.
      rewrite (drop_last _ _ Hlast). reflexivity.
    + exists name. repeat split. exact E.
Qed.

Lemma getUnqualifiedName_no_slash (name : string) :
  strings.Index name "/" = None -> getUnqualifiedName name = Val name.
Proof.
  intros H. destruct (getUnqualifiedName_value name) as (seg & Hv & _ & Hc).
  rewrite H in Hc. congruence.
Qed.

(** The value of [getUnqualifiedName] on a name that ends in "/" and a text
    without "/". *)
Lemma getUnqualifiedName_last (pre segment : string) :
  strings.Index segment "/" = None ->
  getUnqualifiedName (pre +:+ "/" +:+ segment) = Val segment.
Proof.
  intros H.
  destruct (getUnqualifiedName_value (pre +:+ "/" +:+ segment))
    as (seg & Hv & Hnone & Hc).
  destruct (strings.Index (pre +:+ "/" +:+ segment) "/") eqn:E.
  - destruct Hc as [pre' Hc].
    rewrite Hv. f_equal. symmetry. eapply last_segment_unique; eauto.
  - now destruct (Index_append_sep pre "/" segment).
Qed.

(** X1. Unqualifying an unqualified name changes nothing:
    [getUnqualifiedName] applied to its own result gives that result. *)
Theorem getUnqualifiedName_idempotent (name : string) :
  res_bind (getUnqualifiedName name) getUnqualifiedName
  = getUnqualifiedName name.
Proof.
  destruct (getUnqualifiedName_value name) as (seg & Hv & Hnone & _).
  rewrite Hv. simpl. apply getUnqualifiedName_no_slash, Hnone.
Qed.

Section MoreNameHelpers.

Variable c : StorageClient.

(** X2. Unqualifying undoes qualifying: when [getQualifiedName] returns, the
    unqualified form of its result is the unqualified form of the name; for
    a name without "/" that is the name itself. *)
Theorem getUnqualifiedName_of_qualified (name qualified : string) :
  getQualifiedName c name = Val qualified ->
  getUnqualifiedName qualified = getUnqualifiedName name /\
  (strings.Contains name "/" = false ->
   getUnqualifiedName qualified = Val name).
Proof.
  intros H.
  assert (Hmain : getUnqualifiedName qualified = getUnqualifiedName name).
  { unfold getQualifiedName in H.
    destruct (String.eqb_spec name EmptyString) as [->|Hne];
      [injection H as <-; reflexivity|].
    destruct (strings.HasPrefix name "/Storage-"
              || strings.HasPrefix name (API_VERSION +:+ "/"));
      [injection H as <-; reflexivity|].
    destruct (getAccount c) as [account|]; [|discriminate].
    injection H as <-. unfold STR_QUALIFIED_NAME.
    destruct (getUnqualifiedName_value name) as (seg & Hv & Hnone & Hc).
    rewrite Hv. destruct (strings.Index name "/").
    - destruct Hc as [pre ->].
      replace (API_VERSION +:+ account +:+ "/" +:+ pre +:+ "/" +:+ seg)
        with ((API_VERSION +:+ account +:+ "/" +:+ pre) +:+ "/" +:+ seg)
        by now rewrite !append_assoc.
      now apply getUnqualifiedName_last.
    - subst seg.
      rewrite <- (append_assoc API_VERSION account ("/" +:+ name)).
      now apply getUnqualifiedName_last. }
  split; [exact Hmain|].
  intros Hno. rewrite Hmain.
  apply getUnqualifiedName_no_slash, Contains_false_Index, Hno.
Qed.

(** X3. What [getQualifiedName] returns is qualified: it is empty exactly
    for the empty name, otherwise it starts with "/Storage-" or with "v1/",
    and it always ends with the name. *)
Theorem getQualifiedName_is_qualified (name qualified : string) :
  getQualifiedName c name = Val qualified ->
  (qualified = EmptyString <-> name = EmptyString) /\
  (name <> EmptyString ->
   strings.HasPrefix qualified "/Storage-" = true \/
   strings.HasPrefix qualified "v1/" = true) /\
  exists pre : string, qualified = pre +:+ name.
Proof.
  unfold getQualifiedName. intros H.
  destruct (String.eqb_spec name EmptyString) as [->|Hne].
  { injection H as <-. split; [tauto|]. split; [congruence|].
    exists EmptyString. reflexivity. }
  change (API_VERSION +:+ "/") with "v1/" in H.
  destruct (strings.HasPrefix name "/Storage-") eqn:H1;
    [|destruct (strings.HasPrefix name "v1/") eqn:H2]; simpl in H.
  - injection H as <-. split; [tauto|]. split; [auto|].
    exists EmptyString. reflexivity.
  - injection H as <-. split; [tauto|]. split; [auto|].
    exists EmptyString. reflexivity.
  - unfold getAccount in H.
    destruct (client c) as [cl|]; [|discriminate]. simpl in H.
    destruct (IdentityDomain cl) as [domain|]; [|discriminate].
    injection H as <-. split; [split; [discriminate | contradiction]|].
    split; [intros _; right; reflexivity|].
    exists ("v1" +:+ STR_ACCOUNT domain +:+ "/"). unfold STR_QUALIFIED_NAME.
    now rewrite !append_assoc.
Qed.

(** X4. The only panic of [getAccount] and of [getQualifiedName] is the nil
    dereference.  [getAccount] panics exactly when the client has no generic
    client or that has no identity domain; [getQualifiedName] panics exactly
    when the name is not empty, is not qualified yet, and [getAccount]
    panics. *)
Theorem getQualifiedName_panics (name : string) (p : GoPanic) :
  (getAccount c = Panics p <->
   p = NilDereference /\
   (client c = None \/
    exists cl, client c = Some cl /\ IdentityDomain cl = None)) /\
  (getQualifiedName c name = Panics p <->
   name <> EmptyString /\
   strings.HasPrefix name "/Storage-" = false /\
   strings.HasPrefix name "v1/" = false /\
   getAccount c = Panics p).
Proof.
  split.
  - unfold getAccount. destruct (client c) as [cl|]; simpl.
    + destruct (IdentityDomain cl) eqn:E; simpl.
      * split; [discriminate|]. intros [_ [H|(cl' & H & H')]]; congruence.
      * split; [intros [= <-]; eauto|]. intros [-> _]. reflexivity.
    + split; [intros [= <-]; auto|]. intros [-> _]. reflexivity.
  - unfold getQualifiedName. change (API_VERSION +:+ "/") with "v1/".
    destruct (String.eqb_spec name EmptyString) as [->|Hne].
    { split; [discriminate | tauto]. }
    destruct (strings.HasPrefix name "/Storage-");
      [split; [discriminate | intros (_ & ? & _); discriminate]|].
    destruct (strings.HasPrefix name "v1/"); simpl;
      [split; [discriminate | intros (_ & _ & ? & _); discriminate]|].
    destruct (getAccount c); simpl; split; try discriminate; try tauto.
    intros (_ & _ & _ & ?); discriminate.
Qed.

(** X5. The user name is the account, a colon and the user: when
    [getUserName] returns, [getAccount] returns too and the result is
    "{account}:{userName}"; when [getAccount] panics, so does
    [getUserName]. *)
Theorem getUserName_account :
  (forall user : string,
      getUserName c = Val user ->
      exists (account : string) (cl : Client) (userName : string),
        getAccount c = Val account /\
        client c = Some cl /\
        UserName cl = Some userName /\
        user = account +:+ ":" +:+ userName) /\
  (forall p : GoPanic, getAccount c = Panics p -> getUserName c = Panics p).
Proof.
  unfold getUserName, getAccount. destruct (client c) as [cl|]; simpl.
  - destruct (IdentityDomain cl) as [domain|]; simpl.
    + destruct (UserName cl) as [userName|] eqn:E; simpl.
      * split; [|discriminate]. intros user [= <-].
        exists (STR_ACCOUNT domain), cl, userName.
        split; [reflexivity|]. split; [reflexivity|]. split; [exact E|].
        unfold STR_USERNAME, STR_ACCOUNT. symmetry. apply append_assoc.
      * split; discriminate.
    + split; [discriminate | auto].
  - split; [discriminate | auto].
Qed.

End MoreNameHelpers.

Lemma getUnqualifiedName_of_qualified_witness :
  getUnqualifiedName "v1/Storage-acme/box" = getUnqualifiedName "box" /\
  (strings.Contains "box" "/" = false ->
   getUnqualifiedName "v1/Storage-acme/box" = Val "box").
Proof.
  apply (getUnqualifiedName_of_qualified sampleClient "box"). reflexivity.
Defined.

Lemma getQualifiedName_is_qualified_witness :
  ("v1/Storage-acme/box" = EmptyString <-> "box" = EmptyString) /\
  ("box" <> EmptyString ->
   strings.HasPrefix "v1/Storage-acme/box" "/Storage-" = true \/
   strings.HasPrefix "v1/Storage-acme/box" "v1/" = true) /\
  exists pre : string, "v1/Storage-acme/box" = pre +:+ "box".
Proof.
  apply (getQualifiedName_is_qualified sampleClient "box"). reflexivity.
Defined.

(** ** [unqualify] *)

(** What [unqualify] does to each address when no pointer is nil. *)
Lemma unqualify_pointwise (names : list (option nat)) :
  Forall is_Some names ->
  forall heap : Heap,
    snd (unqualify names heap) = None /\
    forall address : nat,
      (Some address ∈ names ->
       getUnqualifiedName (heap address)
       = Val (fst (unqualify names heap) address)) /\
      (Some address ∉ names ->
       fst (unqualify names heap) address = heap address).
Proof.
  induction 1 as [|name rest [a0 ->] _ IH]; intros heap.
  - split; [reflexivity|]. intros address. split; [|reflexivity].
    intros Hin. now apply elem_of_nil in Hin.
  - cbn [unqualify deref].
    destruct (getUnqualifiedName_value (heap a0)) as (u & Hu & Hnone & _).
    rewrite Hu. destruct (IH (<[a0:=u]> heap)) as [Hp Hrest].
    split; [exact Hp|]. intros address.
    destruct (Hrest address) as [Hin Hout].
    destruct (decide (a0 = address)) as [<-|Hne].
    + split; [intros _ | intros Hn; now destruct Hn; left].
      destruct (decide (Some a0 ∈ rest)) as [Hm|Hm].
      * specialize (Hin Hm). rewrite fn_lookup_insert in Hin.
        rewrite (getUnqualifiedName_no_slash _ Hnone) in Hin. congruence.
      * rewrite (Hout Hm), fn_lookup_insert. exact Hu.
    + rewrite fn_lookup_insert_ne in Hin, Hout by exact Hne. split.
      * intros Hm. apply elem_of_cons in Hm as [[= ?]|Hm]; [congruence|auto].
      * intros Hm. apply Hout. intros Hm'. apply Hm. now right.
Qed.

(** X6. With no nil pointer among its arguments, [unqualify] does not
    panic; every string an argument points to is replaced by its
    unqualified form, which has no "/" (also when several arguments point to
    the same string), and no other string is touched. *)
Theorem unqualify_all (names : list (option nat)) (heap : Heap) :
  Forall is_Some names ->
  snd (unqualify names heap) = None /\
  forall address : nat,
    (Some address ∈ names ->
     getUnqualifiedName (heap address)
     = Val (fst (unqualify names heap) address) /\
     strings.Contains (fst (unqualify names heap) address) "/" = false) /\
    (Some address ∉ names ->
     fst (unqualify names heap) address = heap address).
Proof.
  intros Hnames. destruct (unqualify_pointwise names Hnames heap) as [Hp Ha].
  split; [exact Hp|]. intros address. destruct (Ha address) as [Hin Hout].
  split; [|exact Hout]. intros Hm. specialize (Hin Hm). split; [exact Hin|].
  destruct (getUnqualifiedName_value (heap address)) as (u & Hu & Hnone & _).
  rewrite Hu in Hin. injection Hin as <-. now apply Contains_false_Index.
Qed.

(** X7. A nil pointer among the arguments makes [unqualify] panic with a nil
    dereference when the loop reaches it: the strings of the arguments
    before it have been replaced as by a call with just those, the
    arguments after it are not looked at. *)
Theorem unqualify_nil (before after : list (option nat)) (heap : Heap) :
  Forall is_Some before ->
  unqualify (before ++ None :: after) heap
  = (fst (unqualify before heap), Some NilDereference).
Proof.
  intros Hb. revert heap. induction Hb as [|name rest [a0 ->] _ IH]; intros heap.
  - reflexivity.
  - cbn [app unqualify deref].
    destruct (getUnqualifiedName_value (heap a0)) as (u & -> & _).
    apply IH.
Qed.

(** X8. A second [unqualify] of the same arguments changes no string. *)
Theorem unqualify_twice (names : list (option nat)) (heap : Heap)
    (address : nat) :
  Forall is_Some names ->
  fst (unqualify names (fst (unqualify names heap))) address
  = fst (unqualify names heap) address.
Proof.
  intros Hnames.
  destruct (unqualify_pointwise names Hnames heap) as [_ H1].
  destruct (unqualify_pointwise names Hnames (fst (unqualify names heap)))
    as [_ H2].
  destruct (decide (Some address ∈ names)) as [Hm|Hm].
  - destruct (H1 address) as [Hin1 _], (H2 address) as [Hin2 _].
    specialize (Hin1 Hm). specialize (Hin2 Hm).
    destruct (getUnqualifiedName_value (heap address)) as (u & Hu & Hnone & _).
    rewrite Hu in Hin1. injection Hin1 as Hin1. rewrite <- Hin1 in Hin2 |- *.
    rewrite (getUnqualifiedName_no_slash _ Hnone) in Hin2. congruence.
  - destruct (H2 address) as [_ Hout2]. exact (Hout2 Hm).
Qed.

Lemma unqualify_all_witness :
  let heap' := fst (unqualify [Some 0; Some 1; Some 0]%nat sampleHeap) in
  snd (unqualify [Some 0; Some 1; Some 0]%nat sampleHeap) = None /\
  heap' 0%nat = "box" /\ heap' 1%nat = "lid" /\
  heap' 2%nat = "v1/Storage-acme/untouched".
Proof.
  destruct (unqualify_all [Some 0; Some 1; Some 0]%nat sampleHeap) as [Hp Ha].
  - repeat constructor; eexists; reflexivity.
  - split; [exact Hp|]. repeat split; reflexivity.
Defined.

Lemma unqualify_nil_witness :
  let r := unqualify [Some 0; None; Some 1]%nat sampleHeap in
  snd r = Some NilDereference /\
  fst r 0%nat = "box" /\ fst r 1%nat = "v1/Storage-acme/box/lid".
Proof.
  assert (E := unqualify_nil [Some 0%nat] [Some 1%nat] sampleHeap).
  cbn [app] in E. cbv zeta. rewrite E.
  - repeat split; reflexivity.
  - repeat constructor; eexists; reflexivity.
Defined.

Lemma unqualify_twice_witness :
  fst (unqualify [Some 1%nat]
         (fst (unqualify [Some 1%nat] sampleHeap))) 1%nat
  = fst (unqualify [Some 1%nat] sampleHeap) 1%nat.
Proof.
  apply (unqualify_twice [Some 1%nat] sampleHeap 1%nat).
  repeat constructor; eexists; reflexivity.
Defined.

(** ** More on the request path *)

Section MoreRequestPath.

Context {Config Body Response : Type}.
Variables ToLower CanonicalMIMEHeaderKey : string -> string.

Local Abbreviation values := (HeaderValues CanonicalMIMEHeaderKey).

Lemma HeaderValues_addHeader_any (req : Request) (key value k : string) :
  values (Header (addHeader CanonicalMIMEHeaderKey req key value)) k
  = values (Header req) k
    ++ (if decide (CanonicalMIMEHeaderKey key = CanonicalMIMEHeaderKey k)
        then [value] else []).
Proof.
  unfold HeaderValues, addHeader, HeaderAdd. cbn [Header].
  rewrite lookup_insert. destruct (decide _) as [->|_].
  - reflexivity.
  - now rewrite app_nil_r.
Qed.

(** The loop over the headers, as a whole. *)
Lemma rangeHeaders_spec (entries : list (string * string)) :
  forall (req : Request) (debugHeaders : list string),
    let r := rangeHeaders ToLower CanonicalMIMEHeaderKey entries req
               debugHeaders in
    Method (fst r) = Method req /\
    URL (fst r) = URL req /\
    Proto (fst r) = Proto req /\
    snd r = debugHeaders ++ map (debugHeaderLine ToLower) entries /\
    forall k : string,
      values (Header (fst r)) k
      = values (Header req) k
        ++ passedValues CanonicalMIMEHeaderKey (MapStringString entries) k.
Proof.
  induction entries as [|[key value] entries IH]; intros req debugHeaders.
  - cbn. rewrite app_nil_r. repeat split. intros k. now rewrite app_nil_r.
  - cbn [rangeHeaders].
    destruct (IH (addHeader CanonicalMIMEHeaderKey req key value)
                (debugHeaders ++ [ToLower key +:+ ": " +:+ value +:+ newline]))
      as (Hm & Hu & Hp & Hd & Hv).
    cbv zeta. rewrite Hm, Hu, Hp, Hd. repeat split.
    + now rewrite <- app_assoc.
    + intros k. rewrite Hv, HeaderValues_addHeader_any, <- app_assoc.
      f_equal. unfold passedValues. rewrite filter_cons. cbn [fst].
      destruct (decide _); reflexivity.
Qed.

(** X9. Attaching the caller's headers changes nothing of the request but
    its header: method, URL and protocol stay, and under every key the
    values the built request had stay, followed by the values the caller
    passes for that key, in the order of iteration.  Nothing is replaced or
    dropped. *)
Theorem attachHeaders_appends (headers : HeadersArg) (req req' : Request)
    (line debugReqString : string) :
  attachHeaders ToLower CanonicalMIMEHeaderKey headers req line
  = Val (req', debugReqString) ->
  Method req' = Method req /\
  URL req' = URL req /\
  Proto req' = Proto req /\
  forall k : string,
    values (Header req') k
    = values (Header req) k
      ++ passedValues CanonicalMIMEHeaderKey headers k.
Proof.
  destruct headers as [|entries|]; cbn [attachHeaders]; [| |discriminate].
  - intros [= <- _]. repeat split. intros k. cbn. now rewrite app_nil_r.
  - pose proof (rangeHeaders_spec entries req []) as H. cbv zeta in H.
    destruct (rangeHeaders _ _ entries req []) as [r dh]. cbn [fst snd] in H.
    intros [= <- _]. tauto.
Qed.

(** The debug string: the request line alone for nil headers; for a map the
    request line, a newline and the bracketed lines of the headers. *)
Lemma attachHeaders_debug_string (headers : HeadersArg) (req req' : Request)
    (line debugReqString : string) :
  attachHeaders ToLower CanonicalMIMEHeaderKey headers req line
  = Val (req', debugReqString) ->
  debugReqString
  = match headers with
    | MapStringString entries =>
        line +:+ newline
        +:+ formatStringSlice (map (debugHeaderLine ToLower) entries)
    | _ => line
    end.
Proof.
  destruct headers as [|entries|]; cbn [attachHeaders]; [| |discriminate].
  - now intros [= _ <-].
  - pose proof (rangeHeaders_spec entries req []) as H. cbv zeta in H.
    destruct (rangeHeaders _ _ entries req []) as [r dh]. cbn [fst snd] in H.
    destruct H as (_ & _ & _ & -> & _). now intros [= _ <-].
Qed.

End MoreRequestPath.

Section MoreRuns.

Context {Config Body Response : Type}.
Variables ToLower CanonicalMIMEHeaderKey : string -> string.
Context {W : Type}.
Variable env : @Env Config Body Response W.

Local Abbreviation body_run c method path headers body w :=
  (run env
     (executeRequestBody ToLower CanonicalMIMEHeaderKey c method path
        headers body) w).
Local Abbreviation values := (HeaderValues CanonicalMIMEHeaderKey).

(** All the ways a run of [executeRequestBody] can go. *)
Ltac cases :=
  unfold executeRequestBody, doWhen, attachTokenAndExecute, execute,
    attachHeaders, deref;
  repeat (cbn [run outcome world trace event negb];
    match goal with
    | |- context [env ?X ?call ?w] =>
        let x := fresh "answer" in
        let w' := fresh "w" in
        destruct (env X call w) as [x w'] eqn:?;
        lazymatch type of x with
        | (_ * option _)%type => destruct x as [? [?|]]
        | _ => idtac
        end
    | |- context [match ?s with inl _ => _ | inr _ => _ end] =>
        destruct s eqn:?
    | |- context [match ?h with NilInterface => _ | _ => _ end] =>
        destruct h eqn:?
    | |- context [rangeHeaders ?T ?e ?r ?l] =>
        destruct (rangeHeaders T e r l) eqn:?
    | |- context [if negb ?b then _ else _] => destruct b eqn:?
    | |- context [match authToken ?c with Some _ => _ | None => _ end] =>
        destruct (authToken c) eqn:?
    | |- context [if Qgtb ?x ?y then _ else _] => destruct (Qgtb x y) eqn:?
    end);
  cbn [run outcome world trace event negb].

Ltac member H :=
  repeat (destruct H as [H|H]; [try discriminate H | ]); try contradiction H.

(** X10. Unless the path contains "/auth/", a call whose request was built
    writes every header of a map to the debug log as passed: the logged
    string is the request line, a newline and, between brackets and
    separated by spaces, one line "{lowercased key}: {value}" per header in
    the order of iteration. *)
Theorem header_values_are_logged (c : StorageClient) (method path : string)
    (entries : list (string * string)) (body : option Body) (w : W)
    (req : Request) :
  let R := body_run c method path (MapStringString entries) body w in
  strings.Contains path "/auth/" = false ->
  In (EvBuildNonJSONRequest (client c) method path body (inl req)) (trace R) ->
  logged (trace R)
  = [requestLine req +:+ newline
     +:+ formatStringSlice (map (debugHeaderLine ToLower) entries)].
Proof.
  cbv zeta. intros Hpath Hbuilt.
  rewrite logged_executeRequestBody,
    (built_request _ _ _ _ _ _ _ _ _ _ Hbuilt), Hpath.
  destruct (attachHeaders _ _ _ req _) as [[req' dbg]|] eqn:E.
  - now rewrite (attachHeaders_debug_string _ _ _ _ _ _ _ E).
  - cbn [attachHeaders] in E. destruct (rangeHeaders _ _ _ _ _). discriminate E.
Qed.

(** X11. The calls of a run come in one order, each at most once: the
    building of the request (always, first, with the method, path and body
    of the caller), the debug log, the reading of the clock, the
    re-authentication, the execution of the request.  So a call executes at
    most one request and never retries. *)
Theorem calls_in_order (c : StorageClient) (method path : string)
    (headers : HeadersArg) (body : option Body) (w : W) :
  let R := body_run c method path headers body w in
  (exists (answer : Request + error) (rest : list Event),
      trace R
      = EvBuildNonJSONRequest (client c) method path body answer :: rest) /\
  map kind (trace R)
    `sublist_of` [KBuildNonJSONRequest; KDebugLogString; KSince;
                  KGetAuthenticationToken; KExecuteRequest].
Proof.
  cases; (split; [eauto|]); cbn;
    repeat first [apply sublist_skip | apply sublist_cons | apply sublist_nil].
Qed.


(** X13. The client changes only through a re-authentication: a call that
    returns without one leaves the client as it was, and otherwise leaves
    it as the re-authentication did.  A client without a token never has
    the clock read nor a re-authentication made. *)
Theorem client_changes_only_by_reauth (c : StorageClient)
    (method path : string) (headers : HeadersArg) (body : option Body) (w : W) :
  let R := body_run c method path headers body w in
  (forall (c' : StorageClient) (result : option Response * option error),
      outcome R = Val (c', result) ->
      (reauthCalls (trace R) = 0%nat /\ c' = c) \/
      (exists err : option error,
          In (EvGetAuthenticationToken c (c', err)) (trace R))) /\
  (authToken c = None ->
   clockReadings (trace R) = [] /\ reauthCalls (trace R) = 0%nat).
Proof.
  cases; (split; [intros c' result [= <- <-]; cbn; eauto 10
                 | intros [=]; split; reflexivity]).
Qed.

(** X14. A re-authentication is made only on a client that holds a token,
    only after the clock was read, and only when more than 25 minutes have
    elapsed; it is made on the client as the caller passed it, with the
    old token and issue time still in place. *)
Theorem reauth_only_when_stale (c : StorageClient) (method path : string)
    (headers : HeadersArg) (body : option Body) (w : W)
    (c0 : StorageClient) (answer : StorageClient * option error) :
  let R := body_run c method path headers body w in
  In (EvGetAuthenticationToken c0 answer) (trace R) ->
  c0 = c /\
  is_Some (authToken c) /\
  exists d : Duration,
    clockReadings (trace R) = [(tokenIssued c, d)] /\ 25 * Minute < d.
Proof.
  cases; intros H; cbn in H; member H.
  all: injection H as <- _.
  all: match goal with
       | Hs : Qgtb (Minutes ?d) 25 = true |- _ =>
           apply Minutes_gt_25 in Hs; split; [reflexivity|];
           split; [eauto|]; exists d; split; [reflexivity | exact Hs]
       end.
Qed.

(** X15. After a re-authentication that returned no error, the call goes
    on with the token the client holds now: if there is one, the call
    executes one request, with that token attached; if the client was
    left without a token, the call panics at the dereference of the token
    and executes no request. *)
Theorem after_successful_reauth (c : StorageClient)
    (method path : string) (headers : HeadersArg) (body : option Body) (w : W)
    (c0 c' : StorageClient) :
  let R := body_run c method path headers body w in
  In (EvGetAuthenticationToken c0 (c', None)) (trace R) ->
  match authToken c' with
  | Some token =>
      exists req' : Request,
        executed (trace R)
        = [addHeader CanonicalMIMEHeaderKey req' AUTH_HEADER token]
  | None =>
      outcome R = Panics NilDereference /\ executed (trace R) = []
  end.
Proof.
  cases; intros H; cbn in H; member H.
  all: injection H as _ <-.
  all: repeat match goal with
              | H1 : authToken ?x = _, H2 : authToken ?x = _ |- _ =>
                  rewrite H1 in H2; first [discriminate H2 | injection H2 as <-]
              end.
  all: cbn; eauto.
Qed.

(** X16. The request a call executes has the method, URL and protocol of
    the request that was built, and under every key other than
    X-Auth-Token the values the built request had, followed by the values
    the caller passes for that key: attaching the token disturbs no other
    header. *)
Theorem executed_request (c : StorageClient) (method path : string)
    (headers : HeadersArg) (body : option Body) (w : W)
    (req : Request) (cl : option Client) (sent : Request)
    (answer : Response + error) :
  let R := body_run c method path headers body w in
  In (EvBuildNonJSONRequest (client c) method path body (inl req)) (trace R) ->
  In (EvExecuteRequest cl sent answer) (trace R) ->
  Method sent = Method req /\
  URL sent = URL req /\
  Proto sent = Proto req /\
  forall k : string,
    CanonicalMIMEHeaderKey k <> CanonicalMIMEHeaderKey AUTH_HEADER ->
    values (Header sent) k
    = values (Header req) k ++ passedValues CanonicalMIMEHeaderKey headers k.
Proof.
  assert (Hnil : forall (r : Request) k,
             values (Header r) k
             = values (Header r) k
               ++ passedValues CanonicalMIMEHeaderKey NilInterface k).
  { intros r k. cbn. now rewrite app_nil_r. }
  assert (Hmap : forall entries (r r' : Request) dh,
             rangeHeaders ToLower CanonicalMIMEHeaderKey entries r [] = (r', dh) ->
             Method r' = Method r /\ URL r' = URL r /\ Proto r' = Proto r /\
             forall k, values (Header r') k
                       = values (Header r) k
                         ++ passedValues CanonicalMIMEHeaderKey
                              (MapStringString entries) k).
  { intros entries r r' dh E.
    pose proof (rangeHeaders_spec ToLower CanonicalMIMEHeaderKey entries r [])
      as H. cbv zeta in H. rewrite E in H. cbn [fst snd] in H. tauto. }
  assert (Htok : forall (r : Request) token k,
             CanonicalMIMEHeaderKey k <> CanonicalMIMEHeaderKey AUTH_HEADER ->
             values (Header (addHeader CanonicalMIMEHeaderKey r AUTH_HEADER token)) k
             = values (Header r) k).
  { intros r token k Hk. rewrite HeaderValues_addHeader_any.
    destruct (decide _) as [E|_]; [congruence | apply app_nil_r]. }
  cases; intros Hbuilt Hsent; cbn in Hbuilt, Hsent;
    member Hbuilt; injection Hbuilt as <-; member Hsent;
    injection Hsent as <- <- <-;
    repeat match goal with
           | H1 : ?x = (_, _), H2 : ?x = (_, _) |- _ =>
               rewrite H1 in H2; injection H2 as <- <-
           end;
    try match goal with
        | E : rangeHeaders _ _ _ _ _ = _ |- _ =>
            destruct (Hmap _ _ _ _ E) as (Hm & Hu & Hp & Hv)
        end;
    cbn [addHeader Method URL Proto].
  all: repeat split; try assumption; try reflexivity.
  all: intros k Hk; rewrite ?Htok by exact Hk; auto.
Qed.

End MoreRuns.

Lemma attachHeaders_appends_witness :
  let req' :=
    addHeader canonicalAlready sampleRequest "X-Container-Meta-Owner" "alice" in
  Method req' = Method sampleRequest /\
  URL req' = URL sampleRequest /\
  Proto req' = Proto sampleRequest /\
  forall k : string,
    HeaderValues canonicalAlready (Header req') k
    = HeaderValues canonicalAlready (Header sampleRequest) k
      ++ passedValues canonicalAlready sampleHeaders k.
Proof.
  eapply (attachHeaders_appends lowerASCII canonicalAlready sampleHeaders
            sampleRequest _ (requestLine sampleRequest)).
  reflexivity.
Defined.

Lemma header_values_are_logged_witness :
  logged (trace (sampleRun freshTokenScript sampleClient "box" sampleHeaders))
  = [requestLine sampleRequest +:+ newline
     +:+ formatStringSlice
           (map (debugHeaderLine lowerASCII)
              [("X-Container-Meta-Owner", "alice")])].
Proof.
  apply (header_values_are_logged lowerASCII canonicalAlready
           (scripted freshTokenScript) sampleClient "GET" "box"
           [("X-Container-Meta-Owner", "alice")] None tt sampleRequest).
  - reflexivity.
  - simpl. left. reflexivity.
Defined.


Lemma reauth_only_when_stale_witness :
  let R := sampleRun staleTokenScript sampleClient "box" NilInterface in
  sampleClient = sampleClient /\
  is_Some (authToken sampleClient) /\
  exists d : Duration,
    clockReadings (trace R) = [(tokenIssued sampleClient, d)] /\
    25 * Minute < d.
Proof.
  apply (reauth_only_when_stale lowerASCII canonicalAlready
           (scripted staleTokenScript) sampleClient "GET" "box" NilInterface
           None tt sampleClient (refreshTo "token-2" sampleClient)).
  simpl. do 3 right. left. reflexivity.
Defined.

Lemma after_successful_reauth_witness :
  let R := sampleRun lostTokenScript sampleClient "box" NilInterface in
  outcome R = Panics NilDereference /\ executed (trace R) = [].
Proof.
  apply (after_successful_reauth lowerASCII canonicalAlready
           (scripted lostTokenScript) sampleClient "GET" "box" NilInterface
           None tt sampleClient (fst (refreshLosesToken sampleClient))).
  simpl. do 3 right. left. reflexivity.
Defined.

Lemma executed_request_witness :
  let sent :=
    addHeader canonicalAlready
      (addHeader canonicalAlready sampleRequest
         "X-Container-Meta-Owner" "alice")
      AUTH_HEADER "token-2" in
  Method sent = Method sampleRequest /\
  URL sent = URL sampleRequest /\
  Proto sent = Proto sampleRequest /\
  forall k : string,
    canonicalAlready k <> canonicalAlready AUTH_HEADER ->
    HeaderValues canonicalAlready (Header sent) k
    = HeaderValues canonicalAlready (Header sampleRequest) k
      ++ passedValues canonicalAlready sampleHeaders k.
Proof.
  apply (executed_request lowerASCII canonicalAlready
           (scripted staleTokenScript) sampleClient "GET" "box" sampleHeaders
           None tt sampleRequest (Some sampleGenericClient) _
           (inl "204 No Content")).
  - simpl. left. reflexivity.
  - simpl. do 4 right. left. reflexivity.
Defined.

Section ExecuteRequest.

Context {Config Body Response : Type}.
Variables ToLower CanonicalMIMEHeaderKey : string -> string.
Context {W : Type}.
Variable env : @Env Config Body Response W.

(** X17. [executeRequest] builds exactly one request, for the method and
    path of the caller, on the generic client of the storage client, and
    without a body. *)
Theorem executeRequest_builds_without_body (c : StorageClient)
    (method path : string) (headers : HeadersArg) (w : W) :
  let R := run env
             (executeRequest ToLower CanonicalMIMEHeaderKey c method path headers)
             w in
  exists (answer : Request + error) (rest : list Event),
    trace R = EvBuildNonJSONRequest (client c) method path None answer :: rest /\
    Forall (fun e => kind e <> KBuildNonJSONRequest) rest.
Proof.
  unfold executeRequest, executeRequestBody, doWhen, attachTokenAndExecute,
    execute, attachHeaders, deref.
  repeat (cbn [run outcome world trace event negb];
    match goal with
    | |- context [env ?X ?call ?w] =>
        let x := fresh "answer" in
        let w' := fresh "w" in
        destruct (env X call w) as [x w'];
        lazymatch type of x with
        | (_ * option _)%type => destruct x as [? [?|]]
        | _ => idtac
        end
    | |- context [match ?s with inl _ => _ | inr _ => _ end] => destruct s
    | |- context [match ?h with NilInterface => _ | _ => _ end] => destruct h
    | |- context [rangeHeaders ?T ?e ?r ?l] =>
        destruct (rangeHeaders T e r l)
    | |- context [if negb ?b then _ else _] => destruct b
    | |- context [match authToken ?c with Some _ => _ | None => _ end] =>
        destruct (authToken c)
    | |- context [if Qgtb ?x ?y then _ else _] => destruct (Qgtb x y)
    end);
  cbn [run outcome world trace event negb];
    do 2 eexists; (split; [reflexivity|]); repeat constructor; discriminate.
Qed.

End ExecuteRequest.
